(** * Guitar tuner engine of AugmentedChords (src/tuner.ts)

    Shallow embedding of the tuner module.  JavaScript numbers are modelled
    as exact rationals [Q]; floating-point rounding is not modelled.  The
    transcendental library functions [Math.cos], [Math.sqrt] and [Math.log2]
    are parameters of the development, so every theorem holds for any
    implementation of them; [Math.PI], [Math.round], [Math.floor] and
    [Math.ceil] are concrete.  Expressions that can raise in JavaScript
    (reading a property of an array element that may be [undefined]) run in
    a small exception monad [Result]. *)

From Stdlib Require Import QArith Qround Qabs Lqa ZArith Lia List String Ascii Bool.
From Stdlib Require Import Sorted Permutation Qpower.
Import ListNotations.

Open Scope Q_scope.
Open Scope string_scope.

(** ** JavaScript runtime fragments *)

Inductive Result (A : Type) : Type :=
| Val (a : A)
| Throw (err : string).
Arguments Val {A} a.
Arguments Throw {A} err.

Definition bind {A B : Type} (m : Result A) (k : A -> Result B) : Result B :=
  match m with
  | Val a => k a
  | Throw e => Throw e
  end.

Notation "'let*' x := m 'in' k" := (bind m (fun x => k))
  (at level 200, x name, m at level 100, k at level 200).

(** [arr[i].prop] on a plain JS array: an index past the end yields
    [undefined], whose property read raises a TypeError. *)
Definition js_index {A : Type} (l : list A) (i : nat) : Result A :=
  match nth_error l i with
  | Some a => Val a
  | None => Throw "TypeError"
  end.

Definition Qltb (a b : Q) : bool := negb (Qle_bool b a).

Definition Qnat (n : nat) : Q := inject_Z (Z.of_nat n).

Definition Math_max (a b : Q) : Q := if Qltb a b then b else a.
Definition Math_min (a b : Q) : Q := if Qltb b a then b else a.

(** [Math.round x] is [floor (x + 1/2)]. *)
Definition Math_round (x : Q) : Z := Qfloor (x + (1 # 2)).

(** The double nearest to pi (0x400921FB54442D18), exactly. *)
Definition Math_PI : Q := 884279719003555 # 281474976710656.

(** Integer range [lo, hi) walked by a [for (let i = lo; i < hi; i++)] loop. *)
Definition zrange (lo hi : Z) : list Z :=
  map (fun k => (lo + Z.of_nat k)%Z) (seq 0 (Z.to_nat (hi - lo))).

(** ASCII case mapping of [toUpperCase] / case-insensitive matching. *)
Definition ascii_lower (c : ascii) : ascii :=
  let n := nat_of_ascii c in
  if (65 <=? n)%nat && (n <=? 90)%nat then ascii_of_nat (n + 32) else c.

Definition ascii_upper (c : ascii) : ascii :=
  let n := nat_of_ascii c in
  if (97 <=? n)%nat && (n <=? 122)%nat then ascii_of_nat (n - 32) else c.

Fixpoint toUpperCase (s : string) : string :=
  match s with
  | EmptyString => EmptyString
  | String c r => String (ascii_upper c) (toUpperCase r)
  end.

(** [String.prototype.includes]. *)
Fixpoint includes (pat s : string) : bool :=
  prefix pat s ||
  match s with
  | EmptyString => false
  | String _ r => includes pat r
  end.

(** [String.prototype.repeat]. *)
Fixpoint repeat_str (s : string) (n : nat) : string :=
  match n with
  | O => EmptyString
  | S k => s ++ repeat_str s k
  end.

Definition nl : string := String "010"%char EmptyString.
Definition dq : string := String "034"%char EmptyString.

(** ** Constants and state *)

(** [NOTE_FREQUENCIES], in the insertion order [Object.entries] yields. *)
Definition NOTE_FREQUENCIES : list (string * Q) :=
  [("E2", 82.41); ("A2", 110.00); ("D3", 146.83);
   ("G3", 196.00); ("B3", 246.94); ("E4", 329.63)].

Definition MIN_FREQUENCY : Q := 70.
Definition MAX_FREQUENCY : Q := 350.
Definition PEAK_THRESHOLD : Q := 0.4.





Record TunerState := mkTunerState {
  isActive : bool;
  targetNote : string;
  detectedNote : option string;
  detectedFrequency : option Q;
  deviation : option Q (* in cents *)
}.

Definition initTunerState : TunerState :=
  mkTunerState false "E" None None None.

Record Peak := mkPeak {
  index : Z;
  frequency : Q;
  strength : Q
}.

(** [Infinity] as the initial "smallest difference". *)
Inductive ExtQ := Fin (q : Q) | PosInf.

Definition ext_lt (q : Q) (e : ExtQ) : bool :=
  match e with
  | PosInf => true
  | Fin s => Qltb q s
  end.

Definition ext_scale (e : ExtQ) (k : Q) : ExtQ :=
  match e with
  | PosInf => PosInf
  | Fin s => Fin (s * k)
  end.

(** ** Autocorrelation and peak extraction *)

(** [calculateAutocorrelation]: [corr[lag] = (sum_i x[i] * x[i+lag]) / (N - lag)];
    [combine x (skipn lag x)] pairs [x[i]] with [x[i+lag]] for [i < N - lag]. *)
Definition lag_sum (x : list Q) (lag : nat) : Q :=
  fold_left (fun acc '(a, b) => acc + a * b) (combine x (skipn lag x)) 0.

Definition calculateAutocorrelation (x : list Q) : list Q :=
  map (fun lag => lag_sum x lag / (Qnat (List.length x) - Qnat lag)) (seq 0 (List.length x)).

(** [peaks.sort((a, b) => b.strength - a.strength)]: a stable sort by
    descending strength; a later peak overtakes only strictly weaker ones. *)
Fixpoint insert_by_strength (p : Peak) (l : list Peak) : list Peak :=
  match l with
  | [] => [p]
  | q :: r => if Qltb (strength q) (strength p) then p :: q :: r
              else q :: insert_by_strength p r
  end.

Definition sort_by_strength (l : list Peak) : list Peak :=
  fold_left (fun acc p => insert_by_strength p acc) l [].

Definition findMultiplePeaks (autocorrelation : list Q) (sampleRate : Q)
  : Result (list Peak) :=
  let minLag := Qfloor (sampleRate / MAX_FREQUENCY) in
  let maxLag := Qceiling (sampleRate / MIN_FREQUENCY) in
  let startLag := Z.max 5 minLag in
  let len := Z.of_nat (List.length autocorrelation) in
  let at_ (i : Z) := nth (Z.to_nat i) autocorrelation 0 in
  let maxVal :=
    fold_left (fun m i => Math_max m (at_ i))
      (zrange startLag (Z.min maxLag len)) 0 in
  if Qeq_bool maxVal 0 then Val [] else
  let peaks :=
    flat_map (fun i =>
      let prevVal := at_ (i - 1)%Z / maxVal in
      let currVal := at_ i / maxVal in
      let nextVal := at_ (i + 1)%Z / maxVal in
      if Qltb PEAK_THRESHOLD currVal && Qltb prevVal currVal && Qltb nextVal currVal
      then [mkPeak i (sampleRate / inject_Z i) currVal]
      else [])
      (zrange startLag (Z.min maxLag (len - 1))) in
  let peaks := sort_by_strength peaks in
  (* the debug log reads [peaks[0..2].frequency] when there are more than 3 *)
  if (3 <? List.length peaks)%nat then
    let* _ := js_index peaks 0 in
    let* _ := js_index peaks 1 in
    let* _ := js_index peaks 2 in
    Val peaks
  else Val peaks.

(** ** Fundamental selection *)

Definition harmonicDivisors : list Q := [2; 3; 4].

(** "If very close to an expected guitar frequency": +1.0, then [break]. *)
Fixpoint expected_boost (freq : Q) (expected : list Q) (score : Q) : Q :=
  match expected with
  | [] => score
  | e :: r => if Qltb (Qabs (freq / e - 1)) 0.05 then score + 1.0
              else expected_boost freq r score
  end.

(** Inner loop over [otherPeak of peaks] for one potential fundamental;
    on a match it flags, penalizes by 0.5 and breaks. *)
Fixpoint fundamental_scan (others : list Peak) (potentialFundamental : Q)
    (peak : Peak) (score : Q) (isLikelyHarmonic : bool) : Q * bool :=
  match others with
  | [] => (score, isLikelyHarmonic)
  | o :: r =>
      let ratio := frequency o / potentialFundamental in
      if Qltb (Qabs (ratio - 1)) 0.05 && Qltb (strength peak * 0.6) (strength o)
      then (score - 0.5, true)
      else fundamental_scan r potentialFundamental peak score isLikelyHarmonic
  end.

(** Outer loop over [harmonicDivisors]; [continue] below [MIN_FREQUENCY]. *)
Fixpoint harmonic_loop (peaks : list Peak) (peak : Peak) (divisors : list Q)
    (score : Q) (isLikelyHarmonic : bool) : Q * bool :=
  match divisors with
  | [] => (score, isLikelyHarmonic)
  | d :: r =>
      let potentialFundamental := frequency peak / d in
      if Qltb potentialFundamental MIN_FREQUENCY
      then harmonic_loop peaks peak r score isLikelyHarmonic
      else
        let '(s', h') :=
          fundamental_scan peaks potentialFundamental peak score isLikelyHarmonic in
        harmonic_loop peaks peak r s' h'
  end.

Definition peak_score (peaks : list Peak) (peak : Peak) : Q :=
  let freq := frequency peak in
  let score := strength peak * 2 in
  let score := expected_boost freq (map snd NOTE_FREQUENCIES) score in
  let score := score + (MAX_FREQUENCY - freq) / MAX_FREQUENCY in
  let '(score, isLikelyHarmonic) :=
    harmonic_loop peaks peak harmonicDivisors score false in
  if negb isLikelyHarmonic && Qle_bool 80 freq && Qle_bool freq 115
  then score + 0.5 else score.

Fixpoint select_loop (peaks rest : list Peak) (bestScore : Q)
    (fundamentalFrequency : option Q) : Result (option Q) :=
  match rest with
  | [] => Val fundamentalFrequency
  | peak :: r =>
      let score := peak_score peaks peak in
      (* the log condition [freq === peaks[0].frequency || ...] reads peaks[0] *)
      let* _ := js_index peaks 0 in
      if Qltb bestScore score
      then select_loop peaks r score (Some (frequency peak))
      else select_loop peaks r bestScore fundamentalFrequency
  end.

Definition selectFundamentalFrequency (peaks : list Peak) (sampleRate : Q)
  : Result (option Q) :=
  match peaks with
  | [] => Val None
  | _ => select_loop peaks peaks (-1) None
  end.

(** ** Note mapping *)

(** [findClosestGuitarNote].  The cents difference the source also computes
    feeds only its log line, so it is left out. *)
Fixpoint closest_loop (entries : list (string * Q)) (frequency : Q)
    (closestNote : string) (smallestDifference : ExtQ) : string :=
  match entries with
  | [] => closestNote
  | (note, noteFreq) :: r =>
      let difference := Qabs (frequency - noteFreq) in
      if String.eqb note "E2" && Qltb difference 12 then
        if ext_lt difference (ext_scale smallestDifference 1.5)
        then closest_loop r frequency (substring 0 1 note) (Fin difference)
        else closest_loop r frequency closestNote smallestDifference
      else if ext_lt difference smallestDifference
      then closest_loop r frequency (substring 0 1 note) (Fin difference)
      else closest_loop r frequency closestNote smallestDifference
  end.

Definition findClosestGuitarNote (frequency : Q) : string :=
  closest_loop NOTE_FREQUENCIES frequency "" PosInf.

Definition getTargetFrequency (note : string) : Q :=
  match find (fun '(fullNote, _) => prefix note fullNote) NOTE_FREQUENCIES with
  | Some (_, freq) => freq
  | None => 82.41
  end.

(** ** Display *)

Definition command_hint (exit_word : string) : string :=
  "Say " ++ dq ++ "tune to [NOTE]" ++ dq ++ " or " ++ dq ++ exit_word ++ dq.

(** [if (!detectedNote || deviation === null)]: [null] and [""] are falsy,
    so the detection branch needs a non-empty note and a deviation. *)
Definition formatTunerDisplay (tunerState : TunerState) : string :=
  let display := "TARGET NOTE: " ++ targetNote tunerState in
  match detectedNote tunerState, deviation tunerState with
  | Some (String _ _ as detectedNote), Some deviation =>
      let display :=
        if Qltb (Qabs deviation) 5 then
          display ++ nl ++ nl ++ detectedNote ++ ": ** IN TUNE! **"
        else if Qltb deviation 0 then
          let arrowCount := Z.min (Qceiling (Qabs deviation / 10)) 5 in
          let arrows := repeat_str "<" (Z.to_nat arrowCount) in
          display ++ nl ++ nl ++ detectedNote ++ ": TUNE UP " ++ arrows ++ "|"
        else
          let arrowCount := Z.min (Qceiling (deviation / 10)) 5 in
          let arrows := repeat_str ">" (Z.to_nat arrowCount) in
          display ++ nl ++ nl ++ detectedNote ++ ": TUNE DOWN |" ++ arrows in
      display ++ nl ++ nl ++ command_hint "exit"
  | _, _ =>
      display ++ nl ++ nl ++ "No pitch detected. Play a note."
        ++ nl ++ nl ++ command_hint "exit tuner mode"
  end.

(** ** Commands: the regular expression [/tune\s+to\s+([A-G](?:#|b)?)/i] *)

(** [\s] on ASCII: tab, line feed, vertical tab, form feed, carriage return, space. *)
Definition is_js_space (c : ascii) : bool :=
  match nat_of_ascii c with
  | 9 | 10 | 11 | 12 | 13 | 32 => true
  | _ => false
  end%nat.

Definition ieq (c d : ascii) : bool := Ascii.eqb (ascii_lower c) (ascii_lower d).

(** A literal under the [i] flag; returns the rest of the input. *)
Fixpoint match_lit (lit s : string) : option string :=
  match lit, s with
  | EmptyString, _ => Some s
  | String c l, String d r => if ieq c d then match_lit l r else None
  | String _ _, EmptyString => None
  end.

Fixpoint skip_spaces (s : string) : string :=
  match s with
  | String c r => if is_js_space c then skip_spaces r else s
  | EmptyString => s
  end.

(** [\s+]: greedy; the next pattern item never starts with a space, so
    backtracking into the run never helps. *)
Definition match_spaces1 (s : string) : option string :=
  match s with
  | String c r => if is_js_space c then Some (skip_spaces r) else None
  | EmptyString => None
  end.

(** [[A-G]] under [i]. *)
Definition is_note_letter (c : ascii) : bool :=
  let n := nat_of_ascii (ascii_upper c) in ((65 <=? n) && (n <=? 71))%nat.

(** [(?:#|b)] under [i]. *)
Definition is_accidental (c : ascii) : bool :=
  Ascii.eqb c "#"%char || ieq c "b"%char.

(** The capturing group [([A-G](?:#|b)?)], the optional part greedy. *)
Definition match_note (s : string) : option (string * string) :=
  match s with
  | String c r =>
      if is_note_letter c then
        match r with
        | String d r' =>
            if is_accidental d then Some (String c (String d EmptyString), r')
            else Some (String c EmptyString, r)
        | EmptyString => Some (String c EmptyString, r)
        end
      else None
  | EmptyString => None
  end.

(** The pattern anchored at the start of [s]: the capture and the rest. *)
Definition match_at (s : string) : option (string * string) :=
  match match_lit "tune" s with
  | None => None
  | Some r1 =>
  match match_spaces1 r1 with
  | None => None
  | Some r2 =>
  match match_lit "to" r2 with
  | None => None
  | Some r3 =>
  match match_spaces1 r3 with
  | None => None
  | Some r4 => match_note r4
  end end end end.

(** [command.match(re)] without [g]: the leftmost match, as the array
    [[whole match, group 1]] ([None] entry = [undefined]), or [null]. *)
Fixpoint tune_to_match (command : string) : option (list (option string)) :=
  match match_at command with
  | Some (cap, rest) =>
      Some [Some (substring 0 (String.length command - String.length rest) command);
            Some cap]
  | None =>
      match command with
      | EmptyString => None
      | String _ r => tune_to_match r
      end
  end.

Definition set_targetNote (s : TunerState) (t : string) : TunerState :=
  mkTunerState (isActive s) t (detectedNote s) (detectedFrequency s) (deviation s).

Definition set_isActive (s : TunerState) (b : bool) : TunerState :=
  mkTunerState b (targetNote s) (detectedNote s) (detectedFrequency s) (deviation s).

Definition handleTunerCommand (command : string) (tunerState : TunerState)
  : Result TunerState :=
  match tune_to_match command with
  | Some tuneToMatch =>
      (* [tuneToMatch[1].toUpperCase()] *)
      let* group := js_index tuneToMatch 1 in
      match group with
      | Some g => Val (set_targetNote tunerState (toUpperCase g))
      | None => Throw "TypeError"
      end
  | None =>
      if includes "exit tuner" command || includes "chord mode" command
      then Val (set_isActive tunerState false)
      else if includes "tuner mode" command || includes "tune guitar" command
      then Val (set_isActive tunerState true)
      else Val tunerState
  end.

(** ** PCM decoding of the audio handler (src/index.ts, [onAudioChunk]) *)

(** [dataView.getInt16(byteOffset, true)]: a little-endian two's-complement
    16-bit read; a read past the end of the buffer raises a RangeError. *)
Definition getInt16_le (bytes : list Byte.byte) (byteOffset : nat) : Result Z :=
  if (List.length bytes <? byteOffset + 2)%nat then Throw "RangeError" else
  let lo := Z.of_N (Byte.to_N (nth byteOffset bytes Byte.x00)) in
  let hi := Z.of_N (Byte.to_N (nth (S byteOffset) bytes Byte.x00)) in
  let u := (lo + 256 * hi)%Z in
  Val (if (32768 <=? u)%Z then (u - 65536)%Z else u).

(** [for (i = 0; i < floatArray.length; i++)
       floatArray[i] = dataView.getInt16(i * 2, true) / 32768.0]; every
    quotient is exact in single precision. *)
Fixpoint pcm_loop (bytes : list Byte.byte) (is : list nat) : Result (list Q) :=
  match is with
  | [] => Val []
  | i :: r =>
      let* v := getInt16_le bytes (i * 2) in
      let* rest := pcm_loop bytes r in
      Val (inject_Z v / 32768 :: rest)
  end.

(** [new Float32Array(dataView.byteLength / 2)]: the length argument is
    truncated to an integer, so an odd trailing byte is dropped. *)
Definition pcm16_to_float (bytes : list Byte.byte) : Result (list Q) :=
  pcm_loop bytes (seq 0 (Nat.div (List.length bytes) 2)).

(** ** Pitch detection and the audio path, over the libm primitives *)

Section Engine.

Variables Math_cos Math_sqrt Math_log2 : Q -> Q.

Definition calculateSignalStrength (audioData : list Q) : Q :=
  let sum := fold_left (fun acc x => acc + x * x) audioData 0 in
  let rms := Math_sqrt (sum / Qnat (List.length audioData)) in
  Math_min 1 (Math_max 0 (rms / 0.1)).

Fixpoint hamming_from (N i : nat) (xs : list Q) : list Q :=
  match xs with
  | [] => []
  | x :: r =>
      let windowValue :=
        0.54 - 0.46 * Math_cos (2 * Math_PI * Qnat i / (Qnat N - 1)) in
      x * windowValue :: hamming_from N (S i) r
  end.

Definition applyHammingWindow (audioData : list Q) : list Q :=
  hamming_from (List.length audioData) 0 audioData.

(** For [N <= 1] JavaScript divides [0/0] (giving [NaN]) where [Q] gives [0];
    both paths end in "no pitch", as no lag [>= 5] exists. *)
Definition detectPitch (audioData : list Q) (sampleRate : Q) : Result (option Q) :=
  let signalStrength := calculateSignalStrength audioData in
  if Qltb signalStrength 0.01 then Val None else
  let windowedData := applyHammingWindow audioData in
  let autocorrelation := calculateAutocorrelation windowedData in
  let* peaks := findMultiplePeaks autocorrelation sampleRate in
  match peaks with
  | [] => Val None
  | _ =>
      let* bestFrequency := selectFundamentalFrequency peaks sampleRate in
      match bestFrequency with
      | None => Val None
      | Some f =>
          if Qle_bool MIN_FREQUENCY f && Qle_bool f MAX_FREQUENCY
          then Val (Some f) else Val None
      end
  end.

Definition calculateCentsDeviation (detectedFreq targetFreq : Q) : Z :=
  Math_round (1200 * Math_log2 (detectedFreq / targetFreq)).


(** [Math.abs((f - p) / p) * 100 < 3]; for [p = 0] JavaScript gets
    [Infinity] or [NaN], and neither is below 3. *)
Definition percent_below_3 (f p : Q) : bool :=
  if Qeq_bool p 0 then false else Qltb (Qabs ((f - p) / p) * 100) 3.

(** The stability filter of [processTunerAudioChunk]. *)
Definition smooth_frequency (prevDetectedFrequency : option Q) (detected : Q) : Q :=
  match prevDetectedFrequency with
  | Some prev =>
      if percent_below_3 detected prev
      then detected * 0.7 + prev * 0.3
      else detected * 0.9 + prev * 0.1
  | None => detected
  end.

Definition processTunerAudioChunk (audioData : list Q) (tunerState : TunerState)
    (sampleRate : Q) : Result TunerState :=
  if negb (isActive tunerState) then Val tunerState else
  let prevDetectedFrequency := detectedFrequency tunerState in
  let* detected := detectPitch audioData sampleRate in
  match detected with
  | None =>
      match prevDetectedFrequency with
      | None => Val (mkTunerState (isActive tunerState) (targetNote tunerState)
                       None None None)
      | Some _ => Val tunerState
      end
  | Some f =>
      let freq := smooth_frequency prevDetectedFrequency f in
      let targetFrequency := getTargetFrequency (targetNote tunerState) in
      Val (mkTunerState (isActive tunerState) (targetNote tunerState)
             (Some (findClosestGuitarNote freq)) (Some freq)
             (Some (inject_Z (calculateCentsDeviation freq targetFrequency))))
  end.

(** Consecutive chunks through the audio handler of src/index.ts, which
    stores each result back into [this.tunerState]. *)
Fixpoint process_chunks (chunks : list (list Q)) (tunerState : TunerState)
    (sampleRate : Q) : Result TunerState :=
  match chunks with
  | [] => Val tunerState
  | audioData :: rest =>
      let* s' := processTunerAudioChunk audioData tunerState sampleRate in
      process_chunks rest s' sampleRate
  end.

(** States a session can reach from [initTunerState]. *)
Inductive reachable : TunerState -> Prop :=
| reach_init : reachable initTunerState
| reach_audio s audioData sampleRate s' :
    reachable s ->
    processTunerAudioChunk audioData s sampleRate = Val s' ->
    reachable s'
| reach_command s command s' :
    reachable s ->
    handleTunerCommand command s = Val s' ->
    reachable s'.

End Engine.

(** ** Sample primitives, used to run the engine on concrete chunks *)

Module Samples.
(** A cosine constantly [-1] makes the Hamming window rectangular (weight 1). *)
Definition cos_flat (_ : Q) : Q := -1.
Definition sqrt_id (x : Q) : Q := x.
Definition log2_lin (x : Q) : Q := x - 1.

(** An impulse every 7 samples, 28 samples, at 700 Hz: a 100 Hz tone. *)
Definition impulses_100Hz : list Q :=
  List.concat (List.repeat [1; 0; 0; 0; 0; 0; 0] 4).
End Samples.

(** * Properties *)

(** ** Boolean comparisons *)

Lemma Qltb_iff (a b : Q) : Qltb a b = true <-> a < b.
Proof.
  unfold Qltb. rewrite negb_true_iff. split; intro H.
  - apply Qnot_le_lt. intro H'. apply Qle_bool_iff in H'. congruence.
  - destruct (Qle_bool b a) eqn:E; [|reflexivity].
    apply Qle_bool_iff in E. exfalso. apply (Qlt_not_le a b); assumption.
Qed.

Lemma Qltb_false (a b : Q) : Qltb a b = false -> b <= a.
Proof.
  intro H. apply Qnot_lt_le. intro H'. apply Qltb_iff in H'. congruence.
Qed.

Lemma Qle_bool_false (a b : Q) : Qle_bool a b = false -> b < a.
Proof.
  intro H. apply Qnot_le_lt. intro H'. apply Qle_bool_iff in H'. congruence.
Qed.

Ltac qbool :=
  repeat match goal with
  | H : Qltb _ _ = true |- _ => apply Qltb_iff in H
  | H : Qltb _ _ = false |- _ => apply Qltb_false in H
  | H : Qle_bool _ _ = true |- _ => apply Qle_bool_iff in H
  | H : Qle_bool _ _ = false |- _ => apply Qle_bool_false in H
  | H : (_ && _)%bool = true |- _ => apply andb_true_iff in H; destruct H
  end.

Section EngineFacts.

Variables Math_cos Math_sqrt Math_log2 : Q -> Q.

(** The range gate at the end of [detectPitch]. *)
Lemma detectPitch_in_range audioData sampleRate f :
  detectPitch Math_cos Math_sqrt audioData sampleRate = Val (Some f) ->
  MIN_FREQUENCY <= f <= MAX_FREQUENCY.
Proof.
  unfold detectPitch.
  destruct (Qltb _ 0.01); [discriminate|].
  destruct (findMultiplePeaks _ _) as [peaks|e]; cbn [bind]; [|discriminate].
  destruct peaks as [|p ps]; [discriminate|].
  destruct (selectFundamentalFrequency _ _) as [[g|]|e]; cbn [bind];
    try discriminate.
  destruct (Qle_bool MIN_FREQUENCY g) eqn:E1; destruct (Qle_bool g MAX_FREQUENCY) eqn:E2;
    cbn; intro H; inversion H; subst; qbool; split; assumption.
Qed.

Lemma smooth_frequency_in_range prev f :
  (forall p, prev = Some p -> 70 <= p <= 350) ->
  70 <= f <= 350 ->
  70 <= smooth_frequency prev f <= 350.
Proof.
  intros Hp Hf. unfold smooth_frequency.
  destruct prev as [p|]; [|exact Hf].
  destruct (Hp p eq_refl) as [Hp1 Hp2]. destruct Hf as [Hf1 Hf2].
  destruct (percent_below_3 f p); split; lra.
Qed.

Lemma handleTunerCommand_detectedFrequency command s s' :
  handleTunerCommand command s = Val s' ->
  detectedFrequency s' = detectedFrequency s.
Proof.
  unfold handleTunerCommand.
  destruct (tune_to_match command) as [m|].
  - destruct (js_index m 1) as [[g|]|e]; cbn [bind]; try discriminate.
    intro H; inversion H; reflexivity.
  - destruct (_ || _)%bool; [intro H; inversion H; reflexivity|].
    destruct (_ || _)%bool; intro H; inversion H; reflexivity.
Qed.

(** C10: while the tuner is inactive, [processTunerAudioChunk] returns its
    input state unchanged in every field, whatever the chunk and rate. *)
Theorem processTunerAudioChunk_inactive_identity audioData s sampleRate :
  isActive s = false ->
  processTunerAudioChunk Math_cos Math_sqrt Math_log2 audioData s sampleRate = Val s.
Proof.
  intro H. unfold processTunerAudioChunk. rewrite H. reflexivity.
Qed.

Lemma percent_below_3_spec f p :
  percent_below_3 f p = true <-> ~ p == 0 /\ Qabs (f - p) / Qabs p * 100 < 3.
Proof.
  unfold percent_below_3. destruct (Qeq_bool p 0) eqn:E.
  - apply Qeq_bool_iff in E. split; [discriminate|]. intros [H _]. contradiction.
  - apply Qeq_bool_neq in E. rewrite Qltb_iff.
    assert (Hd : Qabs ((f - p) / p) == Qabs (f - p) / Qabs p).
    { unfold Qdiv. rewrite Qabs_Qmult, Qabs_Qinv. reflexivity. }
    rewrite Hd. tauto.
Qed.

(** C4: on an active state, a chunk in which no pitch is detected keeps a
    previous detection (frequency, note and deviation) unchanged, and with
    no previous detection clears all three to null. *)
Theorem processTunerAudioChunk_no_pitch audioData s sampleRate :
  isActive s = true ->
  detectPitch Math_cos Math_sqrt audioData sampleRate = Val None ->
  exists s',
    processTunerAudioChunk Math_cos Math_sqrt Math_log2 audioData s sampleRate = Val s' /\
    (detectedFrequency s <> None ->
       detectedFrequency s' = detectedFrequency s /\
       detectedNote s' = detectedNote s /\ deviation s' = deviation s) /\
    (detectedFrequency s = None ->
       detectedFrequency s' = None /\ detectedNote s' = None /\ deviation s' = None).
Proof.
  intros Ha Hd. unfold processTunerAudioChunk. rewrite Ha, Hd. cbn [negb bind].
  destruct (detectedFrequency s) as [p|] eqn:Ef.
  - exists s. split; [reflexivity|]. split.
    + intros _. rewrite Ef. auto.
    + intro H. discriminate.
  - eexists. split; [reflexivity|]. cbn. split; [intro H; contradiction|].
    intros _. repeat split.
Qed.

(** C6: the stability filter.  Without a previous frequency the new one is
    adopted; otherwise, when the relative difference [|new - old| / |old|]
    is below 3 percent the stored value is [0.7 new + 0.3 old], and in every
    other case (including [old = 0], where the relative difference is
    unbounded) it is [0.9 new + 0.1 old]. *)
Theorem processTunerAudioChunk_stability_filter audioData s sampleRate f :
  isActive s = true ->
  detectPitch Math_cos Math_sqrt audioData sampleRate = Val (Some f) ->
  exists s',
    processTunerAudioChunk Math_cos Math_sqrt Math_log2 audioData s sampleRate = Val s' /\
    (detectedFrequency s = None -> detectedFrequency s' = Some f) /\
    (forall p, detectedFrequency s = Some p ->
       ~ p == 0 /\ Qabs (f - p) / Qabs p * 100 < 3 ->
       exists q, detectedFrequency s' = Some q /\ q == 0.7 * f + 0.3 * p) /\
    (forall p, detectedFrequency s = Some p ->
       ~ (~ p == 0 /\ Qabs (f - p) / Qabs p * 100 < 3) ->
       exists q, detectedFrequency s' = Some q /\ q == 0.9 * f + 0.1 * p).
Proof.
  intros Ha Hd. unfold processTunerAudioChunk. rewrite Ha, Hd. cbn [negb bind].
  eexists. split; [reflexivity|]. cbn [detectedFrequency].
  repeat split.
  - intro E. rewrite E. reflexivity.
  - intros p E Hrel. rewrite E. apply percent_below_3_spec in Hrel.
    unfold smooth_frequency. rewrite Hrel. eexists. split; [reflexivity|]. ring.
  - intros p E Hrel. rewrite E. unfold smooth_frequency.
    destruct (percent_below_3 f p) eqn:P.
    + apply percent_below_3_spec in P. contradiction.
    + eexists. split; [reflexivity|]. ring.
Qed.

(** C1: in every state reachable from [initTunerState] through audio chunks
    and commands, a present [detectedFrequency] lies in [[70, 350]] Hz. *)
Theorem reachable_detectedFrequency_in_range s :
  reachable Math_cos Math_sqrt Math_log2 s ->
  forall f, detectedFrequency s = Some f ->
  MIN_FREQUENCY <= f <= MAX_FREQUENCY.
Proof.
  induction 1 as [| s audioData sampleRate s' Hr IH Hp | s command s' Hr IH Hc].
  - intros f E. discriminate.
  - unfold processTunerAudioChunk in Hp.
    destruct (isActive s); cbn [negb] in Hp.
    + destruct (detectPitch Math_cos Math_sqrt audioData sampleRate)
        as [[g|]|e] eqn:Ed; cbn [bind] in Hp; [| |discriminate].
      * inversion Hp; subst s'; cbn. intros f E. inversion E; subst f.
        apply smooth_frequency_in_range; [exact IH|].
        exact (detectPitch_in_range _ _ _ Ed).
      * destruct (detectedFrequency s) eqn:Ef; inversion Hp; subst s'.
        -- rewrite Ef. exact IH.
        -- intros f E. discriminate.
    + inversion Hp; subst s'. exact IH.
  - rewrite (handleTunerCommand_detectedFrequency _ _ _ Hc). exact IH.
Qed.

End EngineFacts.

(** ** Note mapping *)

Lemma Qabs_bounds (x : Q) : - Qabs x <= x <= Qabs x.
Proof. apply Qabs_Qle_condition. apply Qle_refl. Qed.

(** After the low-E entry (first in table order) the loop is a plain
    first-strict-minimum search. *)
Lemma closest_loop_min entries f c d :
  Forall (fun e => fst e <> "E2") entries ->
  (closest_loop entries f c (Fin d) = c /\
   Forall (fun e => d <= Qabs (f - snd e)) entries) \/
  (exists e, In e entries /\
     closest_loop entries f c (Fin d) = substring 0 1 (fst e) /\
     Qabs (f - snd e) <= d /\
     Forall (fun e' => Qabs (f - snd e) <= Qabs (f - snd e')) entries).
Proof.
  revert c d.
  induction entries as [|[n nf] rest IH]; intros c d Hne.
  - left. split; [reflexivity | constructor].
  - inversion Hne as [|x l Hn Hrest]; subst. cbn [fst] in Hn.
    apply String.eqb_neq in Hn. cbn [closest_loop]. rewrite Hn. cbn [andb ext_lt].
    destruct (Qltb (Qabs (f - nf)) d) eqn:Hlt; qbool.
    + destruct (IH (substring 0 1 n) (Qabs (f - nf)) Hrest)
        as [[Er Hall] | [e [Hin [Er [Hle Hall]]]]].
      * right. exists (n, nf). split; [left; reflexivity|].
        split; [exact Er|]. split; [apply Qlt_le_weak; exact Hlt|].
        constructor; [apply Qle_refl | exact Hall].
      * right. exists e. split; [right; exact Hin|]. split; [exact Er|].
        split; [lra|]. constructor; [exact Hle | exact Hall].
    + destruct (IH c d Hrest) as [[Er Hall] | [e [Hin [Er [Hle Hall]]]]].
      * left. split; [exact Er|]. constructor; [exact Hlt | exact Hall].
      * right. exists e. split; [right; exact Hin|]. split; [exact Er|].
        split; [exact Hle|]. constructor; [cbn [snd]; lra | exact Hall].
Qed.

Lemma closest_loop_low_E_first rest f :
  closest_loop (("E2", 82.41) :: rest) f "" PosInf =
  closest_loop rest f "E" (Fin (Qabs (f - 82.41))).
Proof.
  cbn [closest_loop]. destruct (Qltb (Qabs (f - 82.41)) 12); reflexivity.
Qed.

(** Whatever the frequency, the result is the letter of a table entry at
    minimal absolute distance. *)
Lemma findClosestGuitarNote_nearest f :
  exists e, In e NOTE_FREQUENCIES /\
    findClosestGuitarNote f = substring 0 1 (fst e) /\
    Forall (fun e' => Qabs (f - snd e) <= Qabs (f - snd e')) NOTE_FREQUENCIES.
Proof.
  unfold findClosestGuitarNote, NOTE_FREQUENCIES.
  rewrite closest_loop_low_E_first.
  match goal with |- context [closest_loop ?rest f "E" (Fin ?d)] =>
    assert (Hne : Forall (fun e => fst e <> "E2") rest)
      by (repeat constructor; cbn; discriminate);
    destruct (closest_loop_min rest f "E" d Hne)
      as [[Er Hall] | [e [Hin [Er [Hle Hall]]]]]
  end.
  - exists ("E2", 82.41). split; [left; reflexivity|]. split; [exact Er|].
    constructor; [apply Qle_refl | exact Hall].
  - exists e. split; [right; exact Hin|]. split; [exact Er|].
    constructor; [exact Hle | exact Hall].
Qed.

(** C3: [findClosestGuitarNote] picks the table entry nearest in absolute Hz
    difference (its letter); within 12 Hz of 82.41 it returns ["E"]: there
    no other entry is closer than low E (all lie more than 15 Hz away), so
    low E wins with or without the 1.5x leniency; and the spec's examples
    83.0 -> ["E"], 150.0 -> ["D"] hold. *)
Theorem findClosestGuitarNote_low_E f :
  Qabs (f - 82.41) < 12 ->
  (exists e, In e NOTE_FREQUENCIES /\
     findClosestGuitarNote f = substring 0 1 (fst e) /\
     Forall (fun e' => Qabs (f - snd e) <= Qabs (f - snd e')) NOTE_FREQUENCIES) /\
  findClosestGuitarNote f = "E" /\
  findClosestGuitarNote 83.0 = "E" /\
  findClosestGuitarNote 150.0 = "D".
Proof.
  intro Hf.
  split; [apply findClosestGuitarNote_nearest|].
  split; [|split; vm_compute; reflexivity].
  destruct (findClosestGuitarNote_nearest f) as [e [Hin [Er Hall]]].
  rewrite Er.
  pose proof (Qabs_bounds (f - 82.41)) as B0.
  inversion Hall as [|x l H0 _]; subst.
  unfold NOTE_FREQUENCIES in Hin.
  cbn [In] in Hin.
  destruct Hin as [<-|[<-|[<-|[<-|[<-|[<-|[]]]]]]];
    cbn [fst snd] in *; try reflexivity;
    match type of H0 with
    | Qabs (f - ?c) <= _ => pose proof (Qabs_bounds (f - c)); lra
    end.
Qed.

(** ** Commands *)

(** What group 1 of [/tune\s+to\s+([A-G](?:#|b)?)/i] can capture. *)
Definition note_capture (g : string) : Prop :=
  exists c, is_note_letter c = true /\
    (g = String c EmptyString \/
     exists d, is_accidental d = true /\ g = String c (String d EmptyString)).

Lemma match_note_capture s g rest :
  match_note s = Some (g, rest) -> note_capture g.
Proof.
  unfold match_note. destruct s as [|c r]; [discriminate|].
  destruct (is_note_letter c) eqn:Hc; [|discriminate].
  destruct r as [|d r'].
  - intro H; inversion H; subst. exists c. split; [exact Hc | left; reflexivity].
  - destruct (is_accidental d) eqn:Hd; intro H; inversion H; subst;
      exists c; split; try exact Hc.
    + right. exists d. split; [exact Hd | reflexivity].
    + left. reflexivity.
Qed.

Lemma match_at_capture s g rest :
  match_at s = Some (g, rest) -> note_capture g.
Proof.
  unfold match_at.
  destruct (match_lit "tune" s) as [r1|]; [|discriminate].
  destruct (match_spaces1 r1) as [r2|]; [|discriminate].
  destruct (match_lit "to" r2) as [r3|]; [|discriminate].
  destruct (match_spaces1 r3) as [r4|]; [|discriminate].
  apply match_note_capture.
Qed.

(** A successful match is the array [[whole, group 1]] with group 1 present. *)
Lemma tune_to_match_shape command m :
  tune_to_match command = Some m ->
  exists w g, m = [Some w; Some g] /\ note_capture g.
Proof.
  induction command as [|c r IH]; intro H; cbn [tune_to_match] in H;
    destruct (match_at _) as [[g rest]|] eqn:E.
  - inversion H; subst. exists (substring 0 (String.length "" - String.length rest) "").
    exists g. split; [reflexivity|]. exact (match_at_capture _ _ _ E).
  - discriminate.
  - inversion H; subst. eexists. exists g. split; [reflexivity|].
    exact (match_at_capture _ _ _ E).
  - exact (IH H).
Qed.

(** C5: when the command matches the target-note pattern, the result sets
    [targetNote] to the uppercased capture (a letter A-G, optionally followed
    by [#] or [b]/[B]) and changes no other field, whatever else the text
    contains; so ["tune to a"] on the initial (inactive) state only sets the
    target to ["A"]. *)
Theorem handleTunerCommand_tune_to command s m :
  tune_to_match command = Some m ->
  (exists g, nth_error m 1 = Some (Some g) /\ note_capture g /\
     handleTunerCommand command s =
       Val (mkTunerState (isActive s) (toUpperCase g) (detectedNote s)
              (detectedFrequency s) (deviation s))) /\
  handleTunerCommand "tune to a" initTunerState =
    Val (mkTunerState false "A" None None None).
Proof.
  intro H. split; [|vm_compute; reflexivity].
  pose proof (tune_to_match_shape _ _ H) as [w [g [Em Hg]]].
  exists g. split; [subst m; reflexivity|]. split; [exact Hg|].
  unfold handleTunerCommand. rewrite H. subst m. reflexivity.
Qed.

(** C8 (as the code has it): for a command that does NOT match the
    target-note pattern, text containing ["exit tuner"] or ["chord mode"]
    yields [isActive = false], and otherwise text containing ["tuner mode"]
    or ["tune guitar"] yields [isActive = true]; every other field is kept,
    and applying the same command again changes nothing. *)
Theorem handleTunerCommand_mode_switch command s :
  tune_to_match command = None ->
  ((includes "exit tuner" command || includes "chord mode" command) = true ->
   let s' := mkTunerState false (targetNote s) (detectedNote s)
               (detectedFrequency s) (deviation s) in
   handleTunerCommand command s = Val s' /\ handleTunerCommand command s' = Val s') /\
  ((includes "exit tuner" command || includes "chord mode" command) = false ->
   (includes "tuner mode" command || includes "tune guitar" command) = true ->
   let s' := mkTunerState true (targetNote s) (detectedNote s)
               (detectedFrequency s) (deviation s) in
   handleTunerCommand command s = Val s' /\ handleTunerCommand command s' = Val s').
Proof.
  intro H. unfold handleTunerCommand. rewrite H.
  split.
  - intros Hx. rewrite Hx. split; reflexivity.
  - intros Hx He. rewrite Hx, He. split; reflexivity.
Qed.

(** ** Harmonic penalty *)

(** Divisor [d] marks [peak] as a likely harmonic: [frequency / d] is at
    least [MIN_FREQUENCY] and some peak of the list (the peak itself never
    qualifies, its ratio being [d]) lies within 5 percent of it with a
    strength strictly above 0.6 times the peak's. *)
Definition harmonic_match (peaks : list Peak) (peak : Peak) (d : Q) : bool :=
  let potentialFundamental := frequency peak / d in
  negb (Qltb potentialFundamental MIN_FREQUENCY) &&
  existsb (fun o => Qltb (Qabs (frequency o / potentialFundamental - 1)) 0.05 &&
                    Qltb (strength peak * 0.6) (strength o)) peaks.

Definition harmonic_count (peaks : list Peak) (peak : Peak) (divisors : list Q) : nat :=
  List.length (filter (harmonic_match peaks peak) divisors).

Lemma fundamental_scan_existsb others pf peak score h :
  fundamental_scan others pf peak score h =
  if existsb (fun o => Qltb (Qabs (frequency o / pf - 1)) 0.05 &&
                       Qltb (strength peak * 0.6) (strength o)) others
  then (score - 0.5, true) else (score, h).
Proof.
  induction others as [|o r IH]; [reflexivity|].
  cbn [fundamental_scan existsb].
  destruct (_ && _)%bool; [reflexivity | exact IH].
Qed.

Lemma Qnat_succ n : Qnat (S n) == Qnat n + 1.
Proof.
  unfold Qnat. rewrite Nat2Z.inj_succ, <- Z.add_1_r, inject_Z_plus. reflexivity.
Qed.

Lemma harmonic_loop_count peaks peak divisors score h :
  fst (harmonic_loop peaks peak divisors score h) ==
    score - (1 # 2) * Qnat (harmonic_count peaks peak divisors) /\
  snd (harmonic_loop peaks peak divisors score h) =
    (h || (0 <? harmonic_count peaks peak divisors)%nat)%bool.
Proof.
  revert score h.
  induction divisors as [|d r IH]; intros score h.
  - cbn. split; [unfold Qnat; simpl; ring | destruct h; reflexivity].
  - unfold harmonic_count. cbn [harmonic_loop filter].
    destruct (harmonic_match peaks peak d) eqn:Hm;
      unfold harmonic_match in Hm; cbv zeta in Hm;
      destruct (Qltb (frequency peak / d) MIN_FREQUENCY) eqn:Hlow;
      cbn [negb andb] in Hm; try discriminate.
    + rewrite fundamental_scan_existsb, Hm.
      destruct (IH (score - 0.5) true) as [IH1 IH2].
      cbn [List.length]. split.
      * rewrite IH1. unfold harmonic_count. rewrite Qnat_succ. ring.
      * rewrite IH2. destruct h; reflexivity.
    + apply IH.
    + rewrite fundamental_scan_existsb, Hm. apply IH.
Qed.

(** C2 (as the code has it): the harmonic check subtracts 0.5 once for EACH
    divisor in [{2, 3, 4}] that marks the peak, so the total penalty is
    0.5 times the number of such divisors (0, 0.5, 1.0 or 1.5), and the
    peak is flagged exactly when that number is positive. *)
Theorem harmonic_penalty_per_divisor peaks peak score :
  fst (harmonic_loop peaks peak harmonicDivisors score false) ==
    score - (1 # 2) * Qnat (harmonic_count peaks peak harmonicDivisors) /\
  snd (harmonic_loop peaks peak harmonicDivisors score false) =
    (0 <? harmonic_count peaks peak harmonicDivisors)%nat /\
  (harmonic_count peaks peak harmonicDivisors <= 3)%nat.
Proof.
  destruct (harmonic_loop_count peaks peak harmonicDivisors score false) as [H1 H2].
  split; [exact H1|]. split; [exact H2|].
  unfold harmonic_count, harmonicDivisors.
  cbn [filter]. repeat destruct (harmonic_match _ _ _); cbn; lia.
Qed.

(** ** Display *)

Lemma string_app_assoc (a b c : string) : (a ++ b) ++ c = a ++ (b ++ c).
Proof. induction a as [|x a IH]; cbn; [reflexivity | rewrite IH; reflexivity]. Qed.

Lemma Qabs_nonneg_eq (d : Q) : 0 <= d -> Qabs d = d.
Proof.
  destruct d as [num den]. unfold Qle. cbn. intro H.
  rewrite Z.abs_eq; [reflexivity | lia].
Qed.

Lemma Qltb_ge (a b : Q) : b <= a -> Qltb a b = false.
Proof.
  intro H. destruct (Qltb a b) eqn:E; [|reflexivity].
  apply Qltb_iff in E. exfalso. apply (Qlt_not_le a b); assumption.
Qed.

(** The marker count of the spec: [min(ceil(|deviation| / 10), 5)]. *)
Definition markers (d : Q) : nat := Z.to_nat (Z.min (Qceiling (Qabs d / 10)) 5).

Lemma markers_bounds d : 5 <= Qabs d -> (1 <= markers d <= 5)%nat.
Proof.
  intro H. unfold markers.
  pose proof (Qle_ceiling (Qabs d / 10)) as Hc.
  assert (Hpos : 0 < inject_Z (Qceiling (Qabs d / 10))).
  { apply Qlt_le_trans with (Qabs d / 10); [|exact Hc].
    apply Qlt_shift_div_l; [reflexivity | lra]. }
  unfold Qlt in Hpos. cbn in Hpos. lia.
Qed.

(** C9 (as the code has it): for a state whose [detectedNote] is a
    NON-EMPTY string and whose [deviation] is [d], the display is the
    target header, then the note with: "IN TUNE" when [|d| < 5]; otherwise,
    when [d < 0], "TUNE UP" with [min(ceil(|d|/10), 5)] markers [<]; and
    otherwise (then [d >= 5]) "TUNE DOWN" with as many markers [>]; it
    ends with a blank line and the one-line hint (no line break inside). *)
Theorem formatTunerDisplay_detection s n d :
  detectedNote s = Some n -> n <> "" -> deviation s = Some d ->
  let head := "TARGET NOTE: " ++ targetNote s ++ nl ++ nl ++ n in
  let tail := nl ++ nl ++ command_hint "exit" in
  (Qabs d < 5 ->
     formatTunerDisplay s = head ++ ": ** IN TUNE! **" ++ tail) /\
  (5 <= Qabs d -> d < 0 ->
     formatTunerDisplay s =
       head ++ ": TUNE UP " ++ repeat_str "<" (markers d) ++ "|" ++ tail) /\
  (5 <= Qabs d -> 0 < d ->
     formatTunerDisplay s =
       head ++ ": TUNE DOWN |" ++ repeat_str ">" (markers d) ++ tail) /\
  (5 <= Qabs d -> (1 <= markers d <= 5)%nat) /\
  includes nl (command_hint "exit") = false.
Proof.
  intros Hn Hne Hd head tail. subst head tail.
  destruct n as [|c r]; [contradiction|].
  unfold formatTunerDisplay. rewrite Hn, Hd.
  split; [|split; [|split; [|split]]].
  - intro H. apply Qltb_iff in H. rewrite H.
    repeat rewrite string_app_assoc. reflexivity.
  - intros H Hneg. rewrite (Qltb_ge _ _ H). apply Qltb_iff in Hneg. rewrite Hneg.
    unfold markers. repeat rewrite string_app_assoc. reflexivity.
  - intros H Hpos. rewrite (Qltb_ge _ _ H).
    rewrite (Qltb_ge d 0) by (apply Qlt_le_weak; exact Hpos).
    unfold markers. rewrite (Qabs_nonneg_eq d) by (apply Qlt_le_weak; exact Hpos).
    repeat rewrite string_app_assoc. reflexivity.
  - apply markers_bounds.
  - vm_compute. reflexivity.
Qed.

(** ** Totality *)

Lemma findMultiplePeaks_total autocorrelation sampleRate :
  exists peaks, findMultiplePeaks autocorrelation sampleRate = Val peaks.
Proof.
  unfold findMultiplePeaks.
  destruct (Qeq_bool _ 0); [eexists; reflexivity|].
  destruct (sort_by_strength _) as [|p0 [|p1 [|p2 r]]]; cbn;
    try destruct (List.length r); eexists; reflexivity.
Qed.

Lemma select_loop_total peaks rest bestScore fund :
  peaks <> [] ->
  exists o, select_loop peaks rest bestScore fund = Val o.
Proof.
  intro Hne. revert bestScore fund.
  induction rest as [|p r IH]; intros bestScore fund; cbn [select_loop].
  - eexists; reflexivity.
  - destruct peaks as [|p0 ps]; [contradiction|].
    cbn [js_index nth_error bind].
    destruct (Qltb _ _); apply IH.
Qed.

Lemma selectFundamentalFrequency_total peaks sampleRate :
  exists o, selectFundamentalFrequency peaks sampleRate = Val o.
Proof.
  destruct peaks as [|p ps]; [eexists; reflexivity|].
  apply select_loop_total. discriminate.
Qed.

Lemma handleTunerCommand_total command s :
  exists s', handleTunerCommand command s = Val s'.
Proof.
  unfold handleTunerCommand.
  destruct (tune_to_match command) as [m|] eqn:E.
  - destruct (tune_to_match_shape _ _ E) as [w [g [-> _]]].
    eexists; reflexivity.
  - destruct (_ || _)%bool; [eexists; reflexivity|].
    destruct (_ || _)%bool; eexists; reflexivity.
Qed.

Section Totality.

Variables Math_cos Math_sqrt Math_log2 : Q -> Q.

Lemma detectPitch_total audioData sampleRate :
  exists o, detectPitch Math_cos Math_sqrt audioData sampleRate = Val o.
Proof.
  unfold detectPitch.
  destruct (Qltb _ 0.01); [eexists; reflexivity|].
  match goal with |- context [findMultiplePeaks ?a ?b] =>
    destruct (findMultiplePeaks_total a b) as [peaks E]; rewrite E
  end.
  cbn [bind]. destruct peaks as [|p ps]; [eexists; reflexivity|].
  match goal with |- context [selectFundamentalFrequency ?a ?b] =>
    destruct (selectFundamentalFrequency_total a b) as [o E']; rewrite E'
  end.
  cbn [bind]. destruct o as [f|]; [|eexists; reflexivity].
  destruct (_ && _)%bool; eexists; reflexivity.
Qed.

(** C7: the engine is total.  For every command string and state,
    [handleTunerCommand] returns a state without raising; for every chunk,
    state and sample rate, [processTunerAudioChunk] returns a state without
    raising, and [detectPitch] returns a value (a frequency or null: quiet
    input, no peaks and out-of-range fundamentals are plain [null]
    results).  Termination is that of the Rocq functions themselves. *)
Theorem tuner_engine_total :
  (forall command s, exists s', handleTunerCommand command s = Val s') /\
  (forall audioData s sampleRate, exists s',
     processTunerAudioChunk Math_cos Math_sqrt Math_log2 audioData s sampleRate = Val s') /\
  (forall audioData sampleRate, exists o,
     detectPitch Math_cos Math_sqrt audioData sampleRate = Val o).
Proof.
  split; [exact handleTunerCommand_total|].
  split; [|exact detectPitch_total].
  intros audioData s sampleRate. unfold processTunerAudioChunk.
  destruct (isActive s); cbn [negb]; [|eexists; reflexivity].
  destruct (detectPitch_total audioData sampleRate) as [o E]. rewrite E.
  cbn [bind]. destruct o as [f|]; [eexists; reflexivity|].
  destruct (detectedFrequency s); eexists; reflexivity.
Qed.

End Totality.

(** * Further properties *)

(** ** Commands never touch a detection *)

Lemma command_frame command s s' :
  handleTunerCommand command s = Val s' ->
  detectedNote s' = detectedNote s /\ detectedFrequency s' = detectedFrequency s /\
  deviation s' = deviation s.
Proof.
  unfold handleTunerCommand.
  destruct (tune_to_match command) as [m|].
  - destruct (js_index m 1) as [[g|]|e]; cbn [bind]; try discriminate.
    intro H; inversion H; subst; auto.
  - destruct (_ || _)%bool; [intro H; inversion H; subst; auto|].
    destruct (_ || _)%bool; intro H; inversion H; subst; auto.
Qed.

(** X1: a voice command (tune-to, mode switch or anything else) leaves the
    detected note, frequency and deviation exactly as they were. *)
Theorem handleTunerCommand_detection_frame command s s' :
  handleTunerCommand command s = Val s' ->
  detectedNote s' = detectedNote s /\ detectedFrequency s' = detectedFrequency s /\
  deviation s' = deviation s.
Proof. exact (command_frame command s s'). Qed.

(** ** Targets a command can set *)

Lemma is_note_letter_upper c :
  is_note_letter c = true ->
  In (ascii_upper c) ["A"; "B"; "C"; "D"; "E"; "F"; "G"]%char.
Proof.
  destruct c as [[] [] [] [] [] [] [] []]; vm_compute;
    let H := fresh in intro H;
    first [discriminate H | repeat (first [left; reflexivity | right])].
Qed.

Lemma is_accidental_upper d :
  is_accidental d = true -> ascii_upper d = "#"%char \/ ascii_upper d = "B"%char.
Proof.
  destruct d as [[] [] [] [] [] [] [] []]; vm_compute;
    let H := fresh in intro H;
    first [discriminate H | left; reflexivity | right; reflexivity].
Qed.

Ltac pick := solve [reflexivity | split; pick | left; pick | right; pick].

(** X2: whatever target-note command is recognised, the frequency the tuner
    then compares against is 110 for A, 146.83 for D, 196 for G, 246.94 for B,
    and low E's 82.41 for E, C, F and every two-character target such as
    "G#" or "BB" (no table key has an accidental); the high E 329.63 is
    never a target. *)
Theorem handleTunerCommand_target_frequency command s m :
  tune_to_match command = Some m ->
  exists s', handleTunerCommand command s = Val s' /\
    let t := targetNote s' in
    (t = "A" /\ getTargetFrequency t = 110.00) \/
    (t = "D" /\ getTargetFrequency t = 146.83) \/
    (t = "G" /\ getTargetFrequency t = 196.00) \/
    (t = "B" /\ getTargetFrequency t = 246.94) \/
    ((t = "E" \/ t = "C" \/ t = "F" \/ String.length t = 2%nat) /\
     getTargetFrequency t = 82.41).
Proof.
  intro H.
  destruct (tune_to_match_shape _ _ H) as [w [g [Em Hg]]].
  exists (set_targetNote s (toUpperCase g)). split.
  { unfold handleTunerCommand. rewrite H, Em. reflexivity. }
  cbn [targetNote set_targetNote].
  destruct Hg as [c [Hc [-> | [d [Hd ->]]]]]; cbn [toUpperCase];
    [|destruct (is_accidental_upper d Hd) as [-> | ->]];
    destruct (is_note_letter_upper c Hc) as [<-|[<-|[<-|[<-|[<-|[<-|[<-|[]]]]]]]];
    pick.
Qed.

(** ** Consistency of a detection *)

Definition guitar_letters : list string := ["E"; "A"; "D"; "G"; "B"].

(** The three detection fields are null together or present together; a
    present note is a guitar-string letter and a deviation a whole number. *)
Definition detection_consistent (s : TunerState) : Prop :=
  (detectedNote s = None /\ detectedFrequency s = None /\ deviation s = None) \/
  (exists n f z, detectedNote s = Some n /\ In n guitar_letters /\
     detectedFrequency s = Some f /\ deviation s = Some (inject_Z z)).

Lemma findClosestGuitarNote_letter f : In (findClosestGuitarNote f) guitar_letters.
Proof.
  destruct (findClosestGuitarNote_nearest f) as [e [Hin [Er _]]]. rewrite Er.
  unfold NOTE_FREQUENCIES in Hin. cbn [In] in Hin.
  destruct Hin as [<-|[<-|[<-|[<-|[<-|[<-|[]]]]]]]; cbn;
    repeat (first [left; reflexivity | right]).
Qed.

Section Consistency.

Variables Math_cos Math_sqrt Math_log2 : Q -> Q.

Lemma reachable_consistent s :
  reachable Math_cos Math_sqrt Math_log2 s -> detection_consistent s.
Proof.
  induction 1 as [| s audioData sampleRate s' Hr IH Hp | s command s' Hr IH Hc].
  - left. repeat split.
  - unfold processTunerAudioChunk in Hp.
    destruct (isActive s); cbn [negb] in Hp.
    + destruct (detectPitch Math_cos Math_sqrt audioData sampleRate)
        as [[g|]|e]; cbn [bind] in Hp; [| |discriminate].
      * inversion Hp; subst s'. right. cbn [detectedNote detectedFrequency deviation].
        do 3 eexists. split; [reflexivity|].
        split; [apply findClosestGuitarNote_letter|]. split; reflexivity.
      * destruct (detectedFrequency s) eqn:Ef; inversion Hp; subst s';
          [exact IH | left; repeat split].
    + inversion Hp; subst s'. exact IH.
  - destruct (command_frame _ _ _ Hc) as [E1 [E2 E3]].
    unfold detection_consistent. rewrite E1, E2, E3. exact IH.
Qed.

(** X3: in every state a session reaches, the detected note, frequency and
    deviation are all null or all present, and then the note is one of
    E, A, D, G, B and the deviation a whole number of cents. *)
Theorem reachable_detection_consistent s :
  reachable Math_cos Math_sqrt Math_log2 s -> detection_consistent s.
Proof. exact (reachable_consistent s). Qed.

(** X4: in every state a session reaches with a frequency present, the
    display is the detection layout: the target line, then the detected
    note (a guitar-string letter) and its indicator, then the short hint;
    never the no-pitch layout. *)
Theorem reachable_display_detection s f :
  reachable Math_cos Math_sqrt Math_log2 s ->
  detectedFrequency s = Some f ->
  exists n body, detectedNote s = Some n /\ In n guitar_letters /\
    formatTunerDisplay s =
      "TARGET NOTE: " ++ targetNote s ++ nl ++ nl ++ n ++ body ++ nl ++ nl
        ++ command_hint "exit".
Proof.
  intros Hr Hf.
  destruct (reachable_consistent s Hr) as [[_ [E _]] | [n [g [z [En [Hin [Ef Ed]]]]]]];
    [congruence|].
  exists n. unfold formatTunerDisplay. rewrite En, Ed.
  destruct Hin as [<-|[<-|[<-|[<-|[<-|[]]]]]]; cbv beta iota zeta;
    (destruct (Qltb (Qabs (inject_Z z)) 5);
     [exists ": ** IN TUNE! **"
     |destruct (Qltb (inject_Z z) 0);
      [exists (": TUNE UP " ++ repeat_str "<"
                 (Z.to_nat (Z.min (Qceiling (Qabs (inject_Z z) / 10)) 5)) ++ "|")
      |exists (": TUNE DOWN |" ++ repeat_str ">"
                 (Z.to_nat (Z.min (Qceiling (inject_Z z / 10)) 5)))]]);
    (split; [reflexivity|]); (split; [cbn; tauto|]);
    rewrite !string_app_assoc; reflexivity.
Qed.

End Consistency.

(** ** Note names *)



Section Notes.

Variable Math_log2 : Q -> Q.


End Notes.

(** ** Peak extraction *)

Lemma zrange_nil lo hi : (hi <= lo)%Z -> zrange lo hi = [].
Proof.
  intro H. unfold zrange. replace (Z.to_nat (hi - lo)) with 0%nat by lia. reflexivity.
Qed.

Lemma zrange_in lo hi i : In i (zrange lo hi) <-> (lo <= i < hi)%Z.
Proof.
  unfold zrange. rewrite in_map_iff. split.
  - intros [k [<- Hk]]. apply in_seq in Hk. lia.
  - intro H. exists (Z.to_nat (i - lo)). split; [lia|]. apply in_seq. lia.
Qed.

Lemma calculateAutocorrelation_length x :
  List.length (calculateAutocorrelation x) = List.length x.
Proof. unfold calculateAutocorrelation. rewrite length_map, length_seq. reflexivity. Qed.

Lemma hamming_from_length cos N i xs : List.length (hamming_from cos N i xs) = List.length xs.
Proof. revert i. induction xs as [|x r IH]; intro i; cbn; [reflexivity | rewrite IH; reflexivity]. Qed.

Lemma findMultiplePeaks_short autocorrelation sampleRate :
  (List.length autocorrelation <= 6)%nat ->
  findMultiplePeaks autocorrelation sampleRate = Val [].
Proof.
  intro Hl. unfold findMultiplePeaks. cbv beta zeta.
  destruct (Qeq_bool _ 0); [reflexivity|].
  rewrite (zrange_nil (Z.max 5 (Qfloor (sampleRate / MAX_FREQUENCY)))
             (Z.min (Qceiling (sampleRate / MIN_FREQUENCY))
                (Z.of_nat (List.length autocorrelation) - 1))) by lia.
  reflexivity.
Qed.

Lemma Math_max_ge a b : a <= Math_max a b /\ b <= Math_max a b.
Proof. unfold Math_max. destruct (Qltb a b) eqn:E; qbool; split; lra. Qed.

Lemma fold_max_bounds (g : Z -> Q) l m :
  m <= fold_left (fun m i => Math_max m (g i)) l m /\
  forall i, In i l -> g i <= fold_left (fun m i => Math_max m (g i)) l m.
Proof.
  revert m. induction l as [|a r IH]; intro m; cbn [fold_left].
  - split; [lra | intros i []].
  - destruct (IH (Math_max m (g a))) as [H1 H2].
    destruct (Math_max_ge m (g a)) as [M1 M2].
    split; [lra|]. intros i [<-|Hi]; [lra | apply H2; exact Hi].
Qed.

Definition by_strength (p q : Peak) : Prop := strength q <= strength p.

Lemma insert_by_strength_perm p l : Permutation (insert_by_strength p l) (p :: l).
Proof.
  induction l as [|q r IH]; cbn; [reflexivity|].
  destruct (Qltb (strength q) (strength p)); [reflexivity|].
  eapply perm_trans; [apply perm_skip; exact IH | apply perm_swap].
Qed.

Lemma sort_perm_acc l acc :
  Permutation (fold_left (fun acc p => insert_by_strength p acc) l acc) (l ++ acc).
Proof.
  revert acc. induction l as [|p r IH]; intro acc; cbn [fold_left]; [reflexivity|].
  eapply perm_trans; [apply IH|].
  eapply perm_trans; [apply Permutation_app_head, insert_by_strength_perm|].
  apply Permutation_sym, Permutation_middle.
Qed.

Lemma sort_by_strength_in p l : In p (sort_by_strength l) <-> In p l.
Proof.
  pose proof (sort_perm_acc l []) as H. rewrite app_nil_r in H.
  split; apply Permutation_in; [exact H | apply Permutation_sym; exact H].
Qed.

Lemma insert_by_strength_sorted p l :
  Sorted by_strength l -> Sorted by_strength (insert_by_strength p l).
Proof.
  induction l as [|q r IH]; intro Hs; cbn.
  - repeat constructor.
  - destruct (Qltb (strength q) (strength p)) eqn:E.
    + qbool. constructor; [exact Hs | constructor; unfold by_strength; lra].
    + qbool. inversion Hs as [|? ? Hr Hh]; subst.
      constructor; [apply IH; exact Hr|].
      destruct r as [|q' r']; cbn; [constructor; exact E|].
      destruct (Qltb (strength q') (strength p));
        constructor; [exact E | inversion Hh; assumption].
Qed.

Lemma sort_by_strength_sorted l : Sorted by_strength (sort_by_strength l).
Proof.
  unfold sort_by_strength.
  assert (H : forall acc, Sorted by_strength acc ->
            Sorted by_strength (fold_left (fun acc p => insert_by_strength p acc) l acc)).
  { induction l as [|p r IH]; intros acc Ha; cbn [fold_left]; [exact Ha|].
    apply IH, insert_by_strength_sorted, Ha. }
  apply H. constructor.
Qed.

(** What a peak of [findMultiplePeaks] satisfies. *)
Definition peak_ok (autocorrelation : list Q) (sampleRate : Q) (p : Peak) : Prop :=
  PEAK_THRESHOLD < strength p <= 1 /\
  (Z.max 5 (Qfloor (sampleRate / MAX_FREQUENCY)) <= index p)%Z /\
  (index p < Qceiling (sampleRate / MIN_FREQUENCY))%Z /\
  (index p < Z.of_nat (List.length autocorrelation) - 1)%Z /\
  frequency p = sampleRate / inject_Z (index p).

Lemma findMultiplePeaks_props autocorrelation sampleRate peaks :
  findMultiplePeaks autocorrelation sampleRate = Val peaks ->
  Sorted by_strength peaks /\ Forall (peak_ok autocorrelation sampleRate) peaks.
Proof.
  unfold findMultiplePeaks. cbv beta zeta.
  set (lo := Z.max 5 (Qfloor (sampleRate / MAX_FREQUENCY))).
  set (mx := Qceiling (sampleRate / MIN_FREQUENCY)).
  set (len := Z.of_nat (List.length autocorrelation)).
  pose proof (fold_max_bounds (fun i => nth (Z.to_nat i) autocorrelation 0)
                (zrange lo (Z.min mx len)) 0) as [Hm0 Hmi].
  cbv beta in Hm0, Hmi.
  set (maxVal := fold_left _ (zrange lo (Z.min mx len)) 0) in *.
  destruct (Qeq_bool maxVal 0) eqn:Hz.
  { intro H. inversion H; subst. split; constructor. }
  apply Qeq_bool_neq in Hz.
  assert (Hpos : 0 < maxVal).
  { destruct (Qle_lteq 0 maxVal) as [[Hlt|Heq] _]; [exact Hm0 | exact Hlt |].
    exfalso. apply Hz. rewrite Heq. reflexivity. }
  set (raw := flat_map _ _).
  intro H.
  assert (Hp : peaks = sort_by_strength raw).
  { destruct (3 <? List.length (sort_by_strength raw))%nat; [|inversion H; reflexivity].
    unfold js_index in H.
    destruct (nth_error _ 0), (nth_error _ 1), (nth_error _ 2);
      cbn [bind] in H; inversion H; reflexivity. }
  subst peaks. split; [apply sort_by_strength_sorted|].
  apply Forall_forall. intros p Hin.
  rewrite sort_by_strength_in in Hin. unfold raw in Hin.
  apply in_flat_map in Hin. destruct Hin as [i [Hi Hpi]].
  apply zrange_in in Hi. cbv beta in Hpi.
  destruct (_ && _ && _)%bool eqn:Hc in Hpi; [|destruct Hpi].
  destruct Hpi as [<-|[]]. qbool.
  unfold peak_ok. cbn [strength index frequency].
  split; [split; [assumption|] | split; [lia | split; [lia | split; [lia | reflexivity]]]].
  apply Qle_shift_div_r; [exact Hpos|].
  rewrite Qmult_1_l. apply Hmi, zrange_in. lia.
Qed.

(** ** Fundamental selection *)

Lemma select_loop_argmax peaks rest b fund r :
  peaks <> [] ->
  select_loop peaks rest b fund = Val r ->
  (r = fund /\ Forall (fun q => peak_score peaks q <= b) rest) \/
  (exists pre p post, rest = (pre ++ p :: post)%list /\ r = Some (frequency p) /\
     b < peak_score peaks p /\
     Forall (fun q => peak_score peaks q < peak_score peaks p) pre /\
     Forall (fun q => peak_score peaks q <= peak_score peaks p) post).
Proof.
  intro Hne. destruct peaks as [|p0 ps]; [contradiction|].
  revert b fund. induction rest as [|q rest IH]; intros b fund H; cbn [select_loop] in H.
  - left. inversion H. split; [reflexivity | constructor].
  - cbn [js_index nth_error bind] in H.
    destruct (Qltb b (peak_score (p0 :: ps) q)) eqn:E; qbool.
    + destruct (IH _ _ H) as [[Er Hall] | [pre [p [post [Eq [Er [Hb [Hpre Hpost]]]]]]]].
      * right. exists [], q, rest. split; [reflexivity|]. split; [exact Er|].
        split; [exact E|]. split; [constructor | exact Hall].
      * right. exists (q :: pre), p, post. split; [rewrite Eq; reflexivity|].
        split; [exact Er|]. split; [lra|].
        split; [constructor; [exact Hb | exact Hpre] | exact Hpost].
    + destruct (IH _ _ H) as [[Er Hall] | [pre [p [post [Eq [Er [Hb [Hpre Hpost]]]]]]]].
      * left. split; [exact Er|]. constructor; [exact E | exact Hall].
      * right. exists (q :: pre), p, post. split; [rewrite Eq; reflexivity|].
        split; [exact Er|]. split; [exact Hb|].
        split; [constructor; [lra | exact Hpre] | exact Hpost].
Qed.

Lemma select_first_max peaks sampleRate r :
  selectFundamentalFrequency peaks sampleRate = Val r ->
  (r = None /\ Forall (fun q => peak_score peaks q <= -1) peaks) \/
  (exists pre p post, peaks = (pre ++ p :: post)%list /\ r = Some (frequency p) /\
     -1 < peak_score peaks p /\
     Forall (fun q => peak_score peaks q < peak_score peaks p) pre /\
     Forall (fun q => peak_score peaks q <= peak_score peaks p) post).
Proof.
  unfold selectFundamentalFrequency. destruct peaks as [|p0 ps].
  - intro H. inversion H. left. split; [reflexivity | constructor].
  - intro H. apply select_loop_argmax; [discriminate | exact H].
Qed.

(** X6: the peak list is sorted by non-increasing strength, and every peak
    has a normalised strength in (0.4, 1], a lag [index] in
    [[max(5, floor(rate/350)), ceil(rate/70))] that leaves a right
    neighbour inside the autocorrelation, and [frequency = rate / lag]. *)
Theorem findMultiplePeaks_sorted_peaks autocorrelation sampleRate peaks :
  findMultiplePeaks autocorrelation sampleRate = Val peaks ->
  Sorted (fun p q => strength q <= strength p) peaks /\
  Forall (fun p =>
    PEAK_THRESHOLD < strength p <= 1 /\
    (Z.max 5 (Qfloor (sampleRate / MAX_FREQUENCY)) <= index p)%Z /\
    (index p < Qceiling (sampleRate / MIN_FREQUENCY))%Z /\
    (index p < Z.of_nat (List.length autocorrelation) - 1)%Z /\
    frequency p = sampleRate / inject_Z (index p)) peaks.
Proof. exact (findMultiplePeaks_props autocorrelation sampleRate peaks). Qed.

(** X7: [selectFundamentalFrequency] returns the frequency of the first peak
    of maximal score when that score exceeds -1, and null exactly when every
    score is at most -1 (in particular for no peaks); so a non-empty peak
    list of high frequencies, whose scores fall below -1, yields null. *)
Theorem selectFundamentalFrequency_first_max peaks sampleRate r :
  selectFundamentalFrequency peaks sampleRate = Val r ->
  (r = None /\ Forall (fun q => peak_score peaks q <= -1) peaks) \/
  (exists pre p post, peaks = (pre ++ p :: post)%list /\ r = Some (frequency p) /\
     -1 < peak_score peaks p /\
     Forall (fun q => peak_score peaks q < peak_score peaks p) pre /\
     Forall (fun q => peak_score peaks q <= peak_score peaks p) post).
Proof. exact (select_first_max peaks sampleRate r). Qed.

Section Detection.

Variables Math_cos Math_sqrt Math_log2 : Q -> Q.

(** X8: a chunk of at most 6 samples never yields a pitch, whatever the
    sample rate and however loud: no lag [>= 5] with a right neighbour fits. *)
Theorem detectPitch_short_chunk audioData sampleRate :
  (List.length audioData <= 6)%nat ->
  detectPitch Math_cos Math_sqrt audioData sampleRate = Val None.
Proof.
  intro Hl. unfold detectPitch. cbv zeta.
  destruct (Qltb _ 0.01); [reflexivity|].
  rewrite findMultiplePeaks_short; [reflexivity|].
  unfold applyHammingWindow.
  rewrite calculateAutocorrelation_length, hamming_from_length. exact Hl.
Qed.

(** X9: a detected pitch is always [sampleRate / lag] for a whole lag of
    at least [max(5, floor(rate/350))], below [ceil(rate/70)] and below
    [N - 1] for a chunk of [N] samples: at 16000 Hz the lags 46..228 give
    the only frequencies the tuner can report. *)
Theorem detectPitch_lag_frequency audioData sampleRate f :
  detectPitch Math_cos Math_sqrt audioData sampleRate = Val (Some f) ->
  exists lag,
    (Z.max 5 (Qfloor (sampleRate / MAX_FREQUENCY)) <= lag)%Z /\
    (lag < Qceiling (sampleRate / MIN_FREQUENCY))%Z /\
    (lag < Z.of_nat (List.length audioData) - 1)%Z /\
    f = sampleRate / inject_Z lag /\
    MIN_FREQUENCY <= f <= MAX_FREQUENCY.
Proof.
  intro H.
  pose proof (detectPitch_in_range Math_cos Math_sqrt _ _ _ H) as Hr.
  unfold detectPitch in H. cbv zeta in H.
  destruct (Qltb _ 0.01); [discriminate|].
  destruct (findMultiplePeaks _ _) as [peaks|e] eqn:Ep; cbn [bind] in H; [|discriminate].
  destruct peaks as [|p0 ps]; [discriminate|].
  destruct (selectFundamentalFrequency _ _) as [[g|]|e] eqn:Es; cbn [bind] in H;
    try discriminate.
  assert (Hg : g = f).
  { destruct (Qle_bool MIN_FREQUENCY g && Qle_bool g MAX_FREQUENCY)%bool;
      inversion H; reflexivity. }
  subst g.
  destruct (select_first_max _ _ _ Es) as [[Hn _] | [pre [p [post [Ep' [Ef _]]]]]];
    [discriminate|].
  injection Ef as Ef.
  destruct (findMultiplePeaks_props _ _ _ Ep) as [_ Hall].
  rewrite Forall_forall in Hall.
  assert (Hin : In p (p0 :: ps)) by (rewrite Ep'; apply in_or_app; right; left; reflexivity).
  destruct (Hall p Hin) as [_ [H1 [H2 [H3 H4]]]].
  unfold applyHammingWindow in H3.
  rewrite calculateAutocorrelation_length, hamming_from_length in H3.
  exists (index p). split; [exact H1|]. split; [exact H2|]. split; [exact H3|].
  split; [rewrite Ef; exact H4 | exact Hr].
Qed.


(** X11: audio processing never changes whether the tuner is active nor its
    target note. *)
Theorem processTunerAudioChunk_mode_frame audioData s sampleRate s' :
  processTunerAudioChunk Math_cos Math_sqrt Math_log2 audioData s sampleRate = Val s' ->
  isActive s' = isActive s /\ targetNote s' = targetNote s.
Proof.
  unfold processTunerAudioChunk.
  destruct (negb (isActive s)); [intro H; inversion H; auto|].
  destruct (detectPitch _ _ _ _) as [[g|]|e]; cbn [bind]; try discriminate.
  - intro H; inversion H; auto.
  - destruct (detectedFrequency s); intro H; inversion H; auto.
Qed.

Lemma smooth_contracts p f :
  Qabs (smooth_frequency (Some p) f - f) <= (3 # 10) * Qabs (p - f).
Proof.
  unfold smooth_frequency. pose proof (Qabs_nonneg (p - f)) as H0.
  destruct (percent_below_3 f p).
  - assert (E : Qabs (f * 0.7 + p * 0.3 - f) == (3 # 10) * Qabs (p - f)).
    { rewrite <- (Qabs_pos (3 # 10)) at 2 by (vm_compute; discriminate).
      rewrite <- Qabs_Qmult. apply Qabs_wd. ring. }
    rewrite E. apply Qle_refl.
  - assert (E : Qabs (f * 0.9 + p * 0.1 - f) == (1 # 10) * Qabs (p - f)).
    { rewrite <- (Qabs_pos (1 # 10)) at 2 by (vm_compute; discriminate).
      rewrite <- Qabs_Qmult. apply Qabs_wd. ring. }
    rewrite E. lra.
Qed.

Lemma process_chunks_contract chunks s sampleRate f p :
  isActive s = true -> detectedFrequency s = Some p ->
  Forall (fun c => detectPitch Math_cos Math_sqrt c sampleRate = Val (Some f)) chunks ->
  exists s' q,
    process_chunks Math_cos Math_sqrt Math_log2 chunks s sampleRate = Val s' /\
    isActive s' = true /\ detectedFrequency s' = Some q /\
    Qabs (q - f) <= (3 # 10) ^ Z.of_nat (List.length chunks) * Qabs (p - f).
Proof.
  revert s p. induction chunks as [|c rest IH]; intros s p Ha Hp Hall.
  - exists s, p. split; [reflexivity|]. split; [exact Ha|]. split; [exact Hp|].
    cbn. lra.
  - inversion Hall as [|? ? Hc Hrest]; subst.
    cbn [process_chunks]. unfold processTunerAudioChunk at 1.
    rewrite Ha, Hc. cbn [negb bind].
    rewrite Hp.
    match goal with |- context [process_chunks _ _ _ rest ?s1 _] =>
      destruct (IH s1 (smooth_frequency (Some p) f) eq_refl eq_refl Hrest)
        as [s' [q [E [Ha' [Hq Hb]]]]]
    end.
    exists s', q. split; [exact E|]. split; [exact Ha'|]. split; [exact Hq|].
    pose proof (smooth_contracts p f) as Hs.
    pose proof (Qpower_0_le (3 # 10) (Z.of_nat (List.length rest))
                  ltac:(vm_compute; discriminate)) as Hpow.
    set (X := (3 # 10) ^ Z.of_nat (List.length rest)) in *.
    apply Qle_trans with (X * ((3 # 10) * Qabs (p - f))).
    + apply Qle_trans with (X * Qabs (smooth_frequency (Some p) f - f)); [exact Hb|].
      rewrite !(Qmult_comm X). apply Qmult_le_compat_r; [exact Hs | exact Hpow].
    + cbn [List.length]. rewrite Nat2Z.inj_succ, <- Z.add_1_r.
      rewrite Qpower_plus by (vm_compute; discriminate).
      fold X. rewrite Qmult_assoc. apply Qle_refl.
Qed.

(** X12: over consecutive chunks in which the same pitch [f] is detected,
    the stored frequency of an active tuner converges to [f]: after [k]
    chunks its distance to [f] is at most [0.3 ^ k] times the distance of
    the frequency held before them. *)
Theorem process_chunks_converges chunks s sampleRate f p :
  isActive s = true -> detectedFrequency s = Some p ->
  Forall (fun c => detectPitch Math_cos Math_sqrt c sampleRate = Val (Some f)) chunks ->
  exists s' q,
    process_chunks Math_cos Math_sqrt Math_log2 chunks s sampleRate = Val s' /\
    isActive s' = true /\ detectedFrequency s' = Some q /\
    Qabs (q - f) <= (3 # 10) ^ Z.of_nat (List.length chunks) * Qabs (p - f).
Proof. exact (process_chunks_contract chunks s sampleRate f p). Qed.

End Detection.

(** ** PCM decoding *)

Lemma getInt16_le_range bytes off :
  (off + 2 <= List.length bytes)%nat ->
  exists v, getInt16_le bytes off = Val v /\ (-32768 <= v <= 32767)%Z.
Proof.
  intro H. unfold getInt16_le.
  replace (List.length bytes <? off + 2)%nat with false
    by (symmetry; apply Nat.ltb_ge; lia).
  pose proof (Byte.to_N_bounded (nth off bytes Byte.x00)).
  pose proof (Byte.to_N_bounded (nth (S off) bytes Byte.x00)).
  eexists. split; [reflexivity|].
  destruct (32768 <=? _)%Z eqn:E; [apply Z.leb_le in E | apply Z.leb_gt in E]; lia.
Qed.

Lemma pcm_sample_range (v : Z) :
  (-32768 <= v <= 32767)%Z -> -1 <= inject_Z v / 32768 < 1.
Proof. intro H. unfold Qle, Qlt. cbn. lia. Qed.

Lemma pcm_loop_range bytes is :
  (forall i, In i is -> (i * 2 + 2 <= List.length bytes)%nat) ->
  exists xs, pcm_loop bytes is = Val xs /\ List.length xs = List.length is /\
    Forall (fun x => -1 <= x < 1) xs.
Proof.
  induction is as [|i r IH]; intro Hb.
  - exists []. split; [reflexivity|]. split; [reflexivity | constructor].
  - destruct (getInt16_le_range bytes (i * 2) (Hb i (or_introl eq_refl)))
      as [v [Ev Hv]].
    destruct (IH (fun j Hj => Hb j (or_intror Hj))) as [xs [Exs [Lxs Fxs]]].
    exists (inject_Z v / 32768 :: xs). cbn [pcm_loop]. rewrite Ev. cbn [bind].
    rewrite Exs. split; [reflexivity|]. split; [cbn; congruence|].
    constructor; [apply pcm_sample_range; exact Hv | exact Fxs].
Qed.

(** X13: decoding a PCM buffer of the audio handler never raises: it yields
    [floor(byteLength / 2)] samples (an odd trailing byte is dropped), each
    in [[-1, 1)]. *)
Theorem pcm16_to_float_samples bytes :
  exists samples, pcm16_to_float bytes = Val samples /\
    List.length samples = Nat.div (List.length bytes) 2 /\
    Forall (fun x => -1 <= x < 1) samples.
Proof.
  unfold pcm16_to_float.
  destruct (pcm_loop_range bytes (seq 0 (Nat.div (List.length bytes) 2)))
    as [xs [E [L F]]].
  { intros i Hi. apply in_seq in Hi.
    pose proof (Nat.div_mod (List.length bytes) 2 ltac:(lia)).
    pose proof (Nat.mod_upper_bound (List.length bytes) 2 ltac:(lia)). lia. }
  exists xs. rewrite length_seq in L. auto.
Qed.

(** ** Concrete runs *)

Module Runs.
Import Samples.

Definition active_state : TunerState := set_isActive initTunerState true.

(** An active state holding a detection at 101 Hz. *)
Definition held_state : TunerState :=
  mkTunerState true "E" (Some "A") (Some 101) (Some 3).

(** [active_state] after the 100 Hz chunk at 700 Hz. *)
Definition tuned_state : TunerState :=
  mkTunerState true "E" (Some "A") (Some (700 # 7)) (Some 256).

Lemma processTunerAudioChunk_inactive_identity_witness :
  isActive initTunerState = false /\
  processTunerAudioChunk cos_flat sqrt_id log2_lin impulses_100Hz
    initTunerState 700 = Val initTunerState.
Proof.
  split; [reflexivity|].
  apply processTunerAudioChunk_inactive_identity. reflexivity.
Defined.

Lemma processTunerAudioChunk_no_pitch_witness :
  (isActive held_state = true /\ detectPitch cos_flat sqrt_id [] 700 = Val None) /\
  exists s', processTunerAudioChunk cos_flat sqrt_id log2_lin [] held_state 700 = Val s' /\
             detectedFrequency s' = Some 101.
Proof.
  assert (Ha : isActive held_state = true) by reflexivity.
  assert (Hd : detectPitch cos_flat sqrt_id [] 700 = Val None) by (vm_compute; reflexivity).
  split; [split; assumption|].
  destruct (processTunerAudioChunk_no_pitch cos_flat sqrt_id log2_lin [] held_state 700 Ha Hd)
    as [s' [E [Hkeep _]]].
  exists s'. split; [exact E|].
  destruct (Hkeep ltac:(discriminate)) as [F _]. exact F.
Defined.

Lemma processTunerAudioChunk_stability_filter_witness :
  (isActive held_state = true /\
   detectPitch cos_flat sqrt_id impulses_100Hz 700 = Val (Some (700 # 7))) /\
  exists s' q,
    processTunerAudioChunk cos_flat sqrt_id log2_lin impulses_100Hz held_state 700 = Val s' /\
    detectedFrequency s' = Some q /\ q == 0.7 * (700 # 7) + 0.3 * 101.
Proof.
  assert (Ha : isActive held_state = true) by reflexivity.
  assert (Hd : detectPitch cos_flat sqrt_id impulses_100Hz 700 = Val (Some (700 # 7)))
    by (vm_compute; reflexivity).
  split; [split; assumption|].
  destruct (processTunerAudioChunk_stability_filter cos_flat sqrt_id log2_lin
              impulses_100Hz held_state 700 (700 # 7) Ha Hd) as [s' [E [_ [Hlt _]]]].
  assert (Hr : ~ (101 : Q) == 0 /\ Qabs ((700 # 7) - 101) / Qabs 101 * 100 < 3)
    by (split; vm_compute; [discriminate | reflexivity]).
  destruct (Hlt 101 eq_refl Hr) as [q [Fq Eq]].
  exists s', q. split; [exact E|]. split; assumption.
Defined.

Lemma reachable_detectedFrequency_in_range_witness :
  reachable cos_flat sqrt_id log2_lin tuned_state /\
  detectedFrequency tuned_state = Some (700 # 7) /\
  MIN_FREQUENCY <= 700 # 7 <= MAX_FREQUENCY.
Proof.
  assert (Hr : reachable cos_flat sqrt_id log2_lin tuned_state).
  { apply (reach_audio _ _ _ active_state impulses_100Hz 700).
    - apply (reach_command _ _ _ initTunerState "tuner mode").
      + apply reach_init.
      + vm_compute. reflexivity.
    - vm_compute. reflexivity. }
  split; [exact Hr|]. split; [reflexivity|].
  exact (reachable_detectedFrequency_in_range cos_flat sqrt_id log2_lin
           tuned_state Hr (700 # 7) eq_refl).
Defined.

(** Three autocorrelation peaks at 16000 Hz (lags 57, 114, 228, sorted by
    strength): about 280.7 Hz, its half and its quarter. *)
Definition harm_high : Peak := mkPeak 57 (16000 # 57) 1.
Definition harm_half : Peak := mkPeak 114 (16000 # 114) 0.9.
Definition harm_quarter : Peak := mkPeak 228 (16000 # 228) 0.8.
Definition harm_peaks : list Peak := [harm_high; harm_half; harm_quarter].

(** The 280.7 Hz peak is flagged, yet its total penalty is 1.0, not 0.5:
    divisors 2 and 4 both find a matching peak. *)
Lemma harmonic_single_penalty_counterexample :
  snd (harmonic_loop harm_peaks harm_high harmonicDivisors 0 false) = true /\
  fst (harmonic_loop harm_peaks harm_high harmonicDivisors 0 false) == -1 /\
  ~ fst (harmonic_loop harm_peaks harm_high harmonicDivisors 0 false) == - (1 # 2).
Proof.
  split; [vm_compute; reflexivity|]. split; [vm_compute; reflexivity|].
  vm_compute. discriminate.
Defined.

Lemma findClosestGuitarNote_low_E_witness :
  Qabs (83.0 - 82.41) < 12 /\ findClosestGuitarNote 83.0 = "E".
Proof.
  assert (H : Qabs (83.0 - 82.41) < 12) by (vm_compute; reflexivity).
  split; [exact H|].
  destruct (findClosestGuitarNote_low_E 83.0 H) as [_ [E _]]. exact E.
Defined.

Lemma handleTunerCommand_tune_to_witness :
  exists m, tune_to_match "tune to g# and tuner mode" = Some m /\
    handleTunerCommand "tune to g# and tuner mode" initTunerState =
      Val (mkTunerState false "G#" None None None).
Proof.
  assert (E : tune_to_match "tune to g# and tuner mode" =
              Some [Some "tune to g#"; Some "g#"]) by (vm_compute; reflexivity).
  exists [Some "tune to g#"; Some "g#"]. split; [exact E|].
  destruct (handleTunerCommand_tune_to _ initTunerState _ E) as [[g [Hg [_ Hh]]] _].
  cbn in Hg. injection Hg as <-. exact Hh.
Defined.

(** The target-note pattern wins over "exit tuner": the state stays active. *)
Lemma handleTunerCommand_exit_counterexample :
  exists s', handleTunerCommand "tune to e and exit tuner" active_state = Val s' /\
             isActive s' = true.
Proof.
  exists (mkTunerState true "E" None None None).
  split; [vm_compute; reflexivity | reflexivity].
Defined.

Lemma handleTunerCommand_mode_switch_witness :
  tune_to_match "exit tuner please" = None /\
  (includes "exit tuner" "exit tuner please" ||
   includes "chord mode" "exit tuner please")%bool = true /\
  handleTunerCommand "exit tuner please" active_state = Val initTunerState.
Proof.
  assert (H1 : tune_to_match "exit tuner please" = None) by (vm_compute; reflexivity).
  assert (H2 : (includes "exit tuner" "exit tuner please" ||
                includes "chord mode" "exit tuner please")%bool = true)
    by (vm_compute; reflexivity).
  split; [exact H1|]. split; [exact H2|].
  destruct (handleTunerCommand_mode_switch _ active_state H1) as [Hx _].
  destruct (Hx H2) as [E _]. exact E.
Defined.

(** A state carrying an empty note string with a 20-cent deviation. *)
Definition empty_note_state : TunerState :=
  mkTunerState true "E" (Some "") (Some 100) (Some 20).

(** JavaScript treats [""] as no note: no "TUNE DOWN" indicator is shown. *)
Lemma formatTunerDisplay_empty_note_counterexample :
  includes "TUNE DOWN" (formatTunerDisplay empty_note_state) = false /\
  includes "No pitch detected" (formatTunerDisplay empty_note_state) = true.
Proof. split; vm_compute; reflexivity. Defined.

Definition flat_state : TunerState :=
  mkTunerState true "E" (Some "E") (Some 80) (Some (-23)).

Lemma formatTunerDisplay_detection_witness :
  formatTunerDisplay flat_state =
    "TARGET NOTE: E" ++ nl ++ nl ++ "E" ++ ": TUNE UP <<<|" ++ nl ++ nl
      ++ command_hint "exit".
Proof.
  destruct (formatTunerDisplay_detection flat_state "E" (-23)
              eq_refl ltac:(discriminate) eq_refl) as [_ [Hup _]].
  rewrite (Hup ltac:(vm_compute; discriminate) ltac:(vm_compute; reflexivity)).
  vm_compute. reflexivity.
Defined.

End Runs.

(** ** Concrete runs of the further properties *)

Module ExtraRuns.
Import Samples.

Definition tuner_on : TunerState := set_isActive initTunerState true.

(** [tuner_on] after the 100 Hz chunk at 700 Hz. *)
Definition after_chunk : TunerState :=
  mkTunerState true "E" (Some "A") (Some (700 # 7)) (Some 256).

Definition holding_101 : TunerState :=
  mkTunerState true "E" (Some "A") (Some 101) (Some 3).

Lemma handleTunerCommand_detection_frame_witness :
  handleTunerCommand "tune to d" after_chunk = Val (set_targetNote after_chunk "D") /\
  detectedNote (set_targetNote after_chunk "D") = detectedNote after_chunk /\
  detectedFrequency (set_targetNote after_chunk "D") = detectedFrequency after_chunk /\
  deviation (set_targetNote after_chunk "D") = deviation after_chunk.
Proof.
  assert (H : handleTunerCommand "tune to d" after_chunk =
              Val (set_targetNote after_chunk "D")) by (vm_compute; reflexivity).
  split; [exact H|]. exact (handleTunerCommand_detection_frame _ _ _ H).
Defined.

Lemma handleTunerCommand_target_frequency_witness :
  tune_to_match "tune to g#" = Some [Some "tune to g#"; Some "g#"] /\
  exists s', handleTunerCommand "tune to g#" initTunerState = Val s' /\
    let t := targetNote s' in
    (t = "A" /\ getTargetFrequency t = 110.00) \/
    (t = "D" /\ getTargetFrequency t = 146.83) \/
    (t = "G" /\ getTargetFrequency t = 196.00) \/
    (t = "B" /\ getTargetFrequency t = 246.94) \/
    ((t = "E" \/ t = "C" \/ t = "F" \/ String.length t = 2%nat) /\
     getTargetFrequency t = 82.41).
Proof.
  assert (E : tune_to_match "tune to g#" = Some [Some "tune to g#"; Some "g#"])
    by (vm_compute; reflexivity).
  split; [exact E|]. exact (handleTunerCommand_target_frequency _ initTunerState _ E).
Defined.

Lemma reachable_detection_consistent_witness :
  reachable cos_flat sqrt_id log2_lin after_chunk /\ detection_consistent after_chunk.
Proof.
  assert (Hr : reachable cos_flat sqrt_id log2_lin after_chunk).
  { apply (reach_audio _ _ _ tuner_on impulses_100Hz 700).
    - apply (reach_command _ _ _ initTunerState "tuner mode").
      + apply reach_init.
      + vm_compute. reflexivity.
    - vm_compute. reflexivity. }
  split; [exact Hr|]. exact (reachable_detection_consistent _ _ _ _ Hr).
Defined.

Lemma reachable_display_detection_witness :
  (reachable cos_flat sqrt_id log2_lin after_chunk /\
   detectedFrequency after_chunk = Some (700 # 7)) /\
  exists n body, detectedNote after_chunk = Some n /\ In n guitar_letters /\
    formatTunerDisplay after_chunk =
      "TARGET NOTE: " ++ targetNote after_chunk ++ nl ++ nl ++ n ++ body ++ nl ++ nl
        ++ command_hint "exit".
Proof.
  assert (Hr : reachable cos_flat sqrt_id log2_lin after_chunk).
  { apply (reach_audio _ _ _ tuner_on impulses_100Hz 700).
    - apply (reach_command _ _ _ initTunerState "tuner mode").
      + apply reach_init.
      + vm_compute. reflexivity.
    - vm_compute. reflexivity. }
  split; [split; [exact Hr | reflexivity]|].
  exact (reachable_display_detection _ _ _ _ (700 # 7) Hr eq_refl).
Defined.

Definition sample_autocorrelation : list Q :=
  calculateAutocorrelation (applyHammingWindow cos_flat impulses_100Hz).

Definition sample_peaks : list Peak :=
  match findMultiplePeaks sample_autocorrelation 700 with
  | Val ps => ps
  | Throw _ => []
  end.

Lemma findMultiplePeaks_sorted_peaks_witness :
  (findMultiplePeaks sample_autocorrelation 700 = Val sample_peaks /\
   List.length sample_peaks = 1%nat) /\
  Sorted (fun p q => strength q <= strength p) sample_peaks /\
  Forall (fun p =>
    PEAK_THRESHOLD < strength p <= 1 /\
    (Z.max 5 (Qfloor (700 / MAX_FREQUENCY)) <= index p)%Z /\
    (index p < Qceiling (700 / MIN_FREQUENCY))%Z /\
    (index p < Z.of_nat (List.length sample_autocorrelation) - 1)%Z /\
    frequency p = 700 / inject_Z (index p)) sample_peaks.
Proof.
  assert (E : findMultiplePeaks sample_autocorrelation 700 = Val sample_peaks)
    by (vm_compute; reflexivity).
  split; [split; [exact E | vm_compute; reflexivity]|].
  exact (findMultiplePeaks_sorted_peaks _ _ _ E).
Defined.

(** A lone 3200 Hz peak (lag 5 at 16000 Hz) scores about -7.1. *)
Definition shrill_peak : Peak := mkPeak 5 3200 0.5.

Lemma selectFundamentalFrequency_first_max_witness :
  selectFundamentalFrequency [shrill_peak] 16000 = Val None /\
  ((@None Q = None /\ Forall (fun q => peak_score [shrill_peak] q <= -1) [shrill_peak]) \/
   (exists pre p post, [shrill_peak] = (pre ++ p :: post)%list /\ None = Some (frequency p) /\
      -1 < peak_score [shrill_peak] p /\
      Forall (fun q => peak_score [shrill_peak] q < peak_score [shrill_peak] p) pre /\
      Forall (fun q => peak_score [shrill_peak] q <= peak_score [shrill_peak] p) post)).
Proof.
  assert (E : selectFundamentalFrequency [shrill_peak] 16000 = Val None)
    by (vm_compute; reflexivity).
  split; [exact E|]. exact (selectFundamentalFrequency_first_max _ _ _ E).
Defined.

(** Six full-scale samples: loud enough to pass the strength gate. *)
Definition short_chunk : list Q := [1; -1; 1; -1; 1; -1].

Lemma detectPitch_short_chunk_witness :
  (List.length short_chunk <= 6)%nat /\
  detectPitch cos_flat sqrt_id short_chunk 16000 = Val None.
Proof.
  split; [cbn; lia|]. apply detectPitch_short_chunk. cbn. lia.
Defined.

Lemma detectPitch_lag_frequency_witness :
  detectPitch cos_flat sqrt_id impulses_100Hz 700 = Val (Some (700 # 7)) /\
  exists lag,
    (Z.max 5 (Qfloor (700 / MAX_FREQUENCY)) <= lag)%Z /\
    (lag < Qceiling (700 / MIN_FREQUENCY))%Z /\
    (lag < Z.of_nat (List.length impulses_100Hz) - 1)%Z /\
    700 # 7 = 700 / inject_Z lag /\
    MIN_FREQUENCY <= 700 # 7 <= MAX_FREQUENCY.
Proof.
  assert (E : detectPitch cos_flat sqrt_id impulses_100Hz 700 = Val (Some (700 # 7)))
    by (vm_compute; reflexivity).
  split; [exact E|]. exact (detectPitch_lag_frequency _ _ _ _ _ E).
Defined.

Lemma processTunerAudioChunk_mode_frame_witness :
  processTunerAudioChunk cos_flat sqrt_id log2_lin impulses_100Hz tuner_on 700 =
    Val after_chunk /\
  isActive after_chunk = isActive tuner_on /\ targetNote after_chunk = targetNote tuner_on.
Proof.
  assert (E : processTunerAudioChunk cos_flat sqrt_id log2_lin impulses_100Hz tuner_on 700 =
              Val after_chunk) by (vm_compute; reflexivity).
  split; [exact E|]. exact (processTunerAudioChunk_mode_frame _ _ _ _ _ _ _ E).
Defined.

Lemma process_chunks_converges_witness :
  (isActive holding_101 = true /\ detectedFrequency holding_101 = Some 101 /\
   Forall (fun c => detectPitch cos_flat sqrt_id c 700 = Val (Some (700 # 7)))
     [impulses_100Hz; impulses_100Hz]) /\
  exists s' q,
    process_chunks cos_flat sqrt_id log2_lin [impulses_100Hz; impulses_100Hz]
      holding_101 700 = Val s' /\
    isActive s' = true /\ detectedFrequency s' = Some q /\
    Qabs (q - (700 # 7)) <= (3 # 10) ^ Z.of_nat 2 * Qabs (101 - (700 # 7)).
Proof.
  assert (Ha : isActive holding_101 = true) by reflexivity.
  assert (Hp : detectedFrequency holding_101 = Some 101) by reflexivity.
  assert (Hc : Forall (fun c => detectPitch cos_flat sqrt_id c 700 = Val (Some (700 # 7)))
                 [impulses_100Hz; impulses_100Hz])
    by (repeat constructor; vm_compute; reflexivity).
  split; [split; [exact Ha | split; [exact Hp | exact Hc]]|].
  exact (process_chunks_converges _ _ _ _ _ 700 (700 # 7) 101 Ha Hp Hc).
Defined.

End ExtraRuns.
